(* ===================================================================== *)
(* datascape: the Streamlit obesity dashboard (app.py)                    *)
(*                                                                       *)
(* A shallow embedding of the script and of the pandas / plotly calls it  *)
(* makes, followed by the properties of its row filter, its AgeBand       *)
(* bucketing and its bar chart.                                           *)
(* ===================================================================== *)

Set Warnings "-notation-overridden,-redundant-canonical-projection,-rewrite-rw".
From Stdlib Require Import String ZArith QArith Lia.
From HB Require Import structures.
From mathcomp Require Import ssreflect ssrfun ssrbool eqtype ssrnat seq path bigop.

Set Implicit Arguments.
Unset Strict Implicit.
Unset Printing Implicit Defensive.

Local Close Scope Q_scope.
Local Open Scope string_scope.
Local Open Scope seq_scope.

(* --------------------------------------------------------------------- *)
(* Equality structures for the data the table holds                       *)
(* --------------------------------------------------------------------- *)

HB.instance Definition _ := hasDecEq.Build string String.eqb_spec.
HB.instance Definition _ := hasDecEq.Build positive Pos.eqb_spec.
HB.instance Definition _ := hasDecEq.Build Z Z.eqb_spec.

Definition Q_to_pair (q : Q) : Z * positive := (Qnum q, Qden q).
Definition pair_to_Q (p : Z * positive) : Q := Qmake p.1 p.2.

Lemma Q_pairK : cancel Q_to_pair pair_to_Q.
Proof. by case. Qed.

HB.instance Definition _ := Equality.copy Q (can_type Q_pairK).

(* --------------------------------------------------------------------- *)
(* Numeric cells                                                          *)
(* --------------------------------------------------------------------- *)

(* A cell of a numeric column (float64 or int64 after read_csv).  A finite
   float is a rational number and the comparisons the script makes (cell
   against a small integer) are exact on it, so a finite cell is carried
   as its rational value; the three special values are kept apart. *)
Inductive number : Type :=
  | Finite (q : Q)
  | PosInf
  | NegInf
  | NaN.

Definition number_to_sum (x : number) : Q + option bool :=
  match x with
  | Finite q => inl q
  | PosInf => inr (Some true)
  | NegInf => inr (Some false)
  | NaN => inr None
  end.

Definition sum_to_number (s : Q + option bool) : number :=
  match s with
  | inl q => Finite q
  | inr (Some true) => PosInf
  | inr (Some false) => NegInf
  | inr None => NaN
  end.

Lemma number_sumK : cancel number_to_sum sum_to_number.
Proof. by case. Qed.

HB.instance Definition _ := Equality.copy number (can_type number_sumK).

(* A Python int written in the script, used where a float is compared. *)
Definition of_int (n : Z) : number := Finite (inject_Z n).

Definition isna (x : number) : bool :=
  if x is NaN then true else false.

(* x <= y on cells; every comparison with NaN is False. *)
Definition le (x y : number) : bool :=
  match x, y with
  | NaN, _ | _, NaN => false
  | NegInf, _ => true
  | _, PosInf => true
  | Finite p, Finite q => Qle_bool p q
  | Finite _, NegInf => false
  | PosInf, _ => false
  end.

(* x >= y is y <= x, as in Python. *)
Definition ge (x y : number) : bool := le y x.

(* --------------------------------------------------------------------- *)
(* Exceptions                                                             *)
(* --------------------------------------------------------------------- *)

Inductive exn : Type := NameError | KeyError | ValueError | IndexError.

Inductive result (A : Type) : Type :=
  | Ok (a : A)
  | Raise (e : exn).

Arguments Raise {A} e.

Definition bind {A B : Type} (r : result A) (k : A -> result B) : result B :=
  match r with
  | Ok a => k a
  | Raise e => Raise e
  end.

Notation "x <- r ;; k" := (bind r (fun x => k))
  (at level 100, r at next level, right associativity).

(* --------------------------------------------------------------------- *)
(* The table                                                              *)
(* --------------------------------------------------------------------- *)

(* One line of the CSV file: the columns the script reads.  An empty
   NObeyesdad cell is read as missing (None); the chart treats such rows
   apart. *)
Record Respondent : Type := mkRespondent {
  Gender : string;
  Age : number;
  FAVC : string;
  FAF : number;
  CALC : string;
  family_history_with_overweight : string;
  NObeyesdad : option string
}.

(* A row of df once the AgeBand column is set; None is the missing
   category (NaN) that pd.cut gives outside the bins. *)
Record Row : Type := mkRow {
  fields : Respondent;
  AgeBand : option string
}.

Definition DataFrame : Type := seq Row.

Definition Respondent_to_tuple (r : Respondent) :=
  (Gender r, Age r, FAVC r, FAF r, CALC r,
   family_history_with_overweight r, NObeyesdad r).

Definition tuple_to_Respondent
    (t : string * number * string * number * string * string
         * option string) :=
  let: (g, a, fv, ff, c, h, n) := t in mkRespondent g a fv ff c h n.

Lemma Respondent_tupleK : cancel Respondent_to_tuple tuple_to_Respondent.
Proof. by case. Qed.

HB.instance Definition _ :=
  Equality.copy Respondent (can_type Respondent_tupleK).

Definition Row_to_pair (r : Row) := (fields r, AgeBand r).
Definition pair_to_Row (p : Respondent * option string) := mkRow p.1 p.2.

Lemma Row_pairK : cancel Row_to_pair pair_to_Row.
Proof. by case. Qed.

HB.instance Definition _ := Equality.copy Row (can_type Row_pairK).

(* df["Gender"], df["FAF"], ...: the column of a field, in row order. *)
Definition col {T : Type} (f : Respondent -> T) (df : DataFrame) : seq T :=
  [seq f (fields r) | r <- df].

(* Series.unique(): the distinct values in order of first appearance. *)
Definition unique {T : eqType} (s : seq T) : seq T := rev (undup (rev s)).

(* --------------------------------------------------------------------- *)
(* pd.cut with explicit bin edges and labels (right=True,                 *)
(* include_lowest=False, ordered=True, duplicates='raise')                *)
(* --------------------------------------------------------------------- *)

(* bins.searchsorted(x, side="left"): the first position i with
   x <= bins[i], or len(bins) when there is none (NaN sorts last). *)
Definition searchsorted_left (bins : seq Z) (x : number) : nat :=
  find (fun b => le x (of_int b)) bins.

Definition onth {T : Type} (s : seq T) (i : nat) : option T :=
  nth None [seq Some v | v <- s] i.

(* One cell: ids outside 1 .. len(bins)-1 and NaN give the missing
   category, any other id i takes labels[i - 1]. *)
Definition cut1 (bins : seq Z) (labels : seq string) (x : number)
  : option string :=
  let ids := searchsorted_left bins x in
  if isna x || (ids == size bins) || (ids == 0) then None
  else onth labels ids.-1.

Definition cut (x : seq number) (bins : seq Z) (labels : seq string)
  : result (seq (option string)) :=
  if ~~ sorted Z.leb bins then Raise ValueError
  else if ~~ uniq bins && (size bins != 2) then Raise ValueError
  else if ~~ uniq labels then Raise ValueError
  else if size labels != (size bins).-1 then Raise ValueError
  else Ok [seq cut1 bins labels v | v <- x].

Definition bins : seq Z := [:: 0; 20; 25; 30; 40; 100]%Z.
Definition labels : seq string := [:: "<20"; "20-25"; "26-30"; "31-40"; "41+"].

(* df["AgeBand"] = <column>: the new column is aligned with the rows. *)
Definition setitem_AgeBand (table : seq Respondent)
    (column : seq (option string)) : DataFrame :=
  [seq mkRow p.1 p.2 | p <- zip table column].

(* --------------------------------------------------------------------- *)
(* Boolean masks and row selection                                        *)
(* --------------------------------------------------------------------- *)

(* What an operand of & can be in the filter expression: the Python
   constant True of an empty selection, or a boolean Series over df. *)
Inductive operand : Type :=
  | PyBool (b : bool)
  | Series (s : seq bool).

(* Series.isin(values) *)
Definition isin (column : seq string) (values : seq string) : operand :=
  Series [seq v \in values | v <- column].

(* Series >= int *)
Definition ge_scalar (column : seq number) (n : Z) : operand :=
  Series [seq ge v (of_int n) | v <- column].

(* Series & Series aligns the two on their index; a label present on one
   side only is filled with False.  Both index ranges start at 0 here. *)
Fixpoint and_aligned (s t : seq bool) : seq bool :=
  match s with
  | [::] => nseq (size t) false
  | a :: s' =>
      match t with
      | [::] => nseq (size s) false
      | b :: t' => (a && b) :: and_aligned s' t'
      end
  end.

(* The & operator: bool & bool, a scalar broadcast over a Series (either
   side), or the element-wise conjunction of two Series. *)
Definition and_ (a b : operand) : operand :=
  match a, b with
  | PyBool p, PyBool q => PyBool (p && q)
  | PyBool p, Series t => Series [seq p && v | v <- t]
  | Series s, PyBool q => Series [seq v && q | v <- s]
  | Series s, Series t => Series (and_aligned s t)
  end.

(* df[key]: a boolean Series as long as the frame keeps the rows it marks
   True, in order; a bare bool is looked up as a column name and fails. *)
Definition getitem (df : DataFrame) (key : operand) : result DataFrame :=
  match key with
  | PyBool _ => Raise KeyError
  | Series m => if size m == size df then Ok (mask m df) else Raise ValueError
  end.

(* --------------------------------------------------------------------- *)
(* Sidebar widgets                                                        *)
(* --------------------------------------------------------------------- *)

(* The widget state the host keeps between runs, by widget label. *)
Record Session : Type := mkSession {
  picked : string -> seq string;
  position : string -> Z
}.

(* st.sidebar.multiselect(label, options): the picked options.  The widget
   offers only the options, so nothing else can come back. *)
Definition multiselect (ui : Session) (label : string) (options : seq string)
  : seq string :=
  [seq v <- picked ui label | v \in options].

(* st.sidebar.slider(label, min_value, max_value): an int within bounds. *)
Definition slider (ui : Session) (label : string) (min_value max_value : Z)
  : Z :=
  Z.max min_value (Z.min max_value (position ui label)).

(* --------------------------------------------------------------------- *)
(* The bar chart                                                          *)
(* --------------------------------------------------------------------- *)

(* The string columns a chart argument can name. *)
Inductive column_name : Type :=
  | cGender | cFAVC | cCALC | cFamilyHistory | cNObeyesdad.

Definition column_label (c : column_name) : string :=
  match c with
  | cGender => "Gender"
  | cFAVC => "FAVC"
  | cCALC => "CALC"
  | cFamilyHistory => "family_history_with_overweight"
  | cNObeyesdad => "NObeyesdad"
  end.

(* The cell of a row in a column; None is a missing cell. *)
Definition cell (c : column_name) (r : Row) : option string :=
  match c with
  | cGender => Some (Gender (fields r))
  | cFAVC => Some (FAVC (fields r))
  | cCALC => Some (CALC (fields r))
  | cFamilyHistory => Some (family_history_with_overweight (fields r))
  | cNObeyesdad => NObeyesdad (fields r)
  end.

(* str(value), as px builds a trace name; a missing value prints "nan". *)
Definition py_str (v : option string) : string :=
  if v is Some s then s else "nan".

(* a_list[i] *)
Definition getitem_list {T : Type} (s : seq T) (i : nat) : result T :=
  if onth s i is Some v then Ok v else Raise IndexError.

(* One bar trace: a legend entry and one bar mark (x, y) per row. *)
Record Trace : Type := mkTrace {
  trace_name : string;
  trace_x : seq (option string);
  trace_y : seq nat
}.

(* The legend has a title only once a trace has been made. *)
Record Figure : Type := mkFigure {
  title : string;
  xaxis_title : string;
  yaxis_title : string;
  legend_title : option string;
  data : seq Trace
}.

(* px's grouping of the frame by the color column.  A column with a
   single distinct value (a missing one included) makes the whole frame
   one group, without any group-by; otherwise the frame is grouped by
   value in order of first appearance, and group-by leaves out the rows
   whose value is missing. *)
Definition get_groups (data_frame : DataFrame) (color : column_name)
  : result (seq (option string * DataFrame)) :=
  let uniques := unique [seq cell color r | r <- data_frame] in
  if size uniques == 1 then
    name <- getitem_list uniques 0 ;;
    Ok [:: (name, data_frame)]
  else
    Ok [seq (Some c, [seq r <- data_frame | cell color r == Some c])
       | c <- pmap id uniques].

(* The trace of one group: with no y and a string column as x, every row
   of the group is a bar mark of height 1 (the "count" column px adds). *)
Definition bar_trace (x : column_name) (g : option string * DataFrame)
  : Trace :=
  {| trace_name := py_str g.1;
     trace_x := [seq cell x r | r <- g.2];
     trace_y := [seq 1 | _ <- g.2] |}.

(* px.bar(data_frame, x=..., color=..., title=...).  The traces are
   collected in one animation frame, which exists only if there is a
   trace; the figure takes the traces of the first frame when there is
   one, and none otherwise. *)
Definition px_bar (data_frame : DataFrame) (x color : column_name)
    (title : string) : result Figure :=
  groups <- get_groups data_frame color ;;
  let traces := [seq bar_trace x g | g <- groups] in
  let frame_list := if traces is [::] then [::] else [:: traces] in
  shown <- (if 0 < size frame_list then getitem_list frame_list 0
            else Ok [::]) ;;
  Ok {| title := title;
        xaxis_title := column_label x;
        yaxis_title := "count";
        legend_title := if groups is [::] then None
                        else Some (column_label color);
        data := shown |}.

(* Bars are drawn stacked (px.bar's barmode is "relative"): the marks of
   a trace that share a category pile up, so the height of the trace's
   segment over category g is the sum of their y.  A mark whose x is
   missing lies over no category. *)
Definition segment_height (t : Trace) (g : string) : nat :=
  \sum_(m <- zip (trace_x t) (trace_y t) | m.1 == Some g) m.2.

(* Height over category g of the series named s in the figure. *)
Definition bar_height (fig : Figure) (g s : string) : nat :=
  \sum_(t <- data fig | trace_name t == s) segment_height t g.

(* The categories on the x axis, in order of first appearance. *)
Definition categories (fig : Figure) : seq string :=
  unique (pmap id (flatten [seq trace_x t | t <- data fig])).

(* --------------------------------------------------------------------- *)
(* The script                                                             *)
(* --------------------------------------------------------------------- *)

(* The module-level names of app.py (None: not bound yet) and the charts
   st.plotly_chart has put on the page. *)
Record Globals : Type := mkGlobals {
  df : option DataFrame;
  gender : option (seq string);
  favc : option (seq string);
  faf : option Z;
  calc : option (seq string);
  fh : option (seq string);
  filtered : option DataFrame;
  fig1 : option Figure;
  page : seq Figure
}.

Definition fresh : Globals :=
  mkGlobals None None None None None None None None [::].

Definition set_df v g :=
  mkGlobals (Some v) (gender g) (favc g) (faf g) (calc g) (fh g)
            (filtered g) (fig1 g) (page g).
Definition set_gender v g :=
  mkGlobals (df g) (Some v) (favc g) (faf g) (calc g) (fh g)
            (filtered g) (fig1 g) (page g).
Definition set_favc v g :=
  mkGlobals (df g) (gender g) (Some v) (faf g) (calc g) (fh g)
            (filtered g) (fig1 g) (page g).
Definition set_faf v g :=
  mkGlobals (df g) (gender g) (favc g) (Some v) (calc g) (fh g)
            (filtered g) (fig1 g) (page g).
Definition set_calc v g :=
  mkGlobals (df g) (gender g) (favc g) (faf g) (Some v) (fh g)
            (filtered g) (fig1 g) (page g).
Definition set_fh v g :=
  mkGlobals (df g) (gender g) (favc g) (faf g) (calc g) (Some v)
            (filtered g) (fig1 g) (page g).
Definition set_filtered v g :=
  mkGlobals (df g) (gender g) (favc g) (faf g) (calc g) (fh g)
            (Some v) (fig1 g) (page g).
Definition set_fig1 v g :=
  mkGlobals (df g) (gender g) (favc g) (faf g) (calc g) (fh g)
            (filtered g) (Some v) (page g).
Definition show v g :=
  mkGlobals (df g) (gender g) (favc g) (faf g) (calc g) (fh g)
            (filtered g) (fig1 g) (rcons (page g) v).

(* Reading a name that is not bound raises NameError. *)
Definition global {T : Type} (v : option T) : result T :=
  if v is Some a then Ok a else Raise NameError.

Definition stmt : Type := Globals -> result Globals.

(* Lines 5-7: the parsed CSV table becomes df, with the AgeBand column. *)
Definition load_stmt (csv : seq Respondent) : stmt := fun g =>
  column <- cut [seq Age r | r <- csv] bins labels ;;
  Ok (set_df (setitem_AgeBand csv column) g).

(* Lines 10-14: the five widgets. *)
Definition gender_stmt (ui : Session) : stmt := fun g =>
  d <- global (df g) ;;
  Ok (set_gender (multiselect ui "Gender" (unique (col Gender d))) g).

Definition favc_stmt (ui : Session) : stmt := fun g =>
  d <- global (df g) ;;
  Ok (set_favc
        (multiselect ui "High Calorie Food (FAVC)" (unique (col FAVC d))) g).

Definition faf_stmt (ui : Session) : stmt := fun g =>
  Ok (set_faf (slider ui "Physical Activity (FAF)" 0 3) g).

Definition calc_stmt (ui : Session) : stmt := fun g =>
  d <- global (df g) ;;
  Ok (set_calc (multiselect ui "Alcohol (CALC)" (unique (col CALC d))) g).

Definition fh_stmt (ui : Session) : stmt := fun g =>
  d <- global (df g) ;;
  Ok (set_fh
        (multiselect ui "Family History"
           (unique (col family_history_with_overweight d))) g).

(* Lines 17-22: the mask.  An empty list is falsy, so an empty selection
   contributes the constant True instead of an isin Series. *)
Definition row_mask (d : DataFrame) (gender favc calc : seq string)
    (faf : Z) : operand :=
  and_ (and_ (and_ (if gender != [::] then isin (col Gender d) gender
                    else PyBool true)
                   (if favc != [::] then isin (col FAVC d) favc
                    else PyBool true))
             (if calc != [::] then isin (col CALC d) calc
              else PyBool true))
       (ge_scalar (col FAF d) faf).

(* The right-hand side of lines 17-22: df[mask]. *)
Definition filtered_expr (d : DataFrame) (gender favc calc : seq string)
    (faf : Z) : result DataFrame :=
  getitem d (row_mask d gender favc calc faf).

Definition filter_stmt : stmt := fun g =>
  d <- global (df g) ;;
  gender_ <- global (gender g) ;;
  favc_ <- global (favc g) ;;
  calc_ <- global (calc g) ;;
  faf_ <- global (faf g) ;;
  view <- filtered_expr d gender_ favc_ calc_ faf_ ;;
  Ok (set_filtered view g).

(* Line 25 *)
Definition chart_stmt : stmt := fun g =>
  view <- global (filtered g) ;;
  fig <- px_bar view cGender cNObeyesdad "Obesity by Gender" ;;
  Ok (set_fig1 fig g).

(* Line 26 *)
Definition plotly_chart_stmt : stmt := fun g =>
  fig <- global (fig1 g) ;;
  Ok (show fig g).

(* One run of the script on the parsed CSV table and the widget state. *)
Definition app (csv : seq Respondent) (ui : Session) : result Globals :=
  g <- load_stmt csv fresh ;;
  g <- gender_stmt ui g ;;
  g <- favc_stmt ui g ;;
  g <- faf_stmt ui g ;;
  g <- calc_stmt ui g ;;
  g <- fh_stmt ui g ;;
  g <- filter_stmt g ;;
  g <- chart_stmt g ;;
  plotly_chart_stmt g.

(* --------------------------------------------------------------------- *)
(* The script over a store of frame objects                               *)
(* --------------------------------------------------------------------- *)

(* The same lines with the frames as objects: a name holds the address of
   a frame, line 6 changes the frame df names in place, and df[mask]
   makes a new object.  What each statement computes is taken from the
   definitions above. *)
Module Store.

(* A frame object: its column index and its rows.  The AgeBand slot of a
   row is read only once "AgeBand" is among the columns. *)
Record frame : Type := mkFrame {
  columns : seq string;
  rows : DataFrame
}.

Definition csv_columns : seq string :=
  [:: "Gender"; "Age"; "FAVC"; "FAF"; "CALC";
      "family_history_with_overweight"; "NObeyesdad"].

(* The objects made so far; the address of an object is its position. *)
Definition heap : Type := seq frame.

Record bindings : Type := mkBindings {
  df : option nat;
  gender : option (seq string);
  favc : option (seq string);
  faf : option Z;
  calc : option (seq string);
  fh : option (seq string);
  filtered : option nat;
  fig1 : option Figure;
  page : seq Figure
}.

Record state : Type := mkState {
  objects : heap;
  names : bindings
}.

Definition fresh : state :=
  mkState [::] (mkBindings None None None None None None None None [::]).

Definition set_df v n :=
  mkBindings (Some v) (gender n) (favc n) (faf n) (calc n) (fh n)
             (filtered n) (fig1 n) (page n).
Definition set_gender v n :=
  mkBindings (df n) (Some v) (favc n) (faf n) (calc n) (fh n)
             (filtered n) (fig1 n) (page n).
Definition set_favc v n :=
  mkBindings (df n) (gender n) (Some v) (faf n) (calc n) (fh n)
             (filtered n) (fig1 n) (page n).
Definition set_faf v n :=
  mkBindings (df n) (gender n) (favc n) (Some v) (calc n) (fh n)
             (filtered n) (fig1 n) (page n).
Definition set_calc v n :=
  mkBindings (df n) (gender n) (favc n) (faf n) (Some v) (fh n)
             (filtered n) (fig1 n) (page n).
Definition set_fh v n :=
  mkBindings (df n) (gender n) (favc n) (faf n) (calc n) (Some v)
             (filtered n) (fig1 n) (page n).
Definition set_filtered v n :=
  mkBindings (df n) (gender n) (favc n) (faf n) (calc n) (fh n)
             (Some v) (fig1 n) (page n).
Definition set_fig1 v n :=
  mkBindings (df n) (gender n) (favc n) (faf n) (calc n) (fh n)
             (filtered n) (Some v) (page n).
Definition show v n :=
  mkBindings (df n) (gender n) (favc n) (faf n) (calc n) (fh n)
             (filtered n) (fig1 n) (rcons (page n) v).

(* The object at an address. *)
Definition deref (h : heap) (a : nat) : result frame := getitem_list h a.

(* The frame a bound name stands for. *)
Definition frame_of (st : state) (name : option nat) : result frame :=
  a <- global name ;; deref (objects st) a.

Definition stmt : Type := state -> result state.

(* Line 5: read_csv makes the frame object and df names it. *)
Definition read_csv_stmt (csv : seq Respondent) : stmt := fun st =>
  let a := size (objects st) in
  Ok (mkState
        (rcons (objects st)
               (mkFrame csv_columns [seq mkRow r None | r <- csv]))
        (set_df a (names st))).

Definition add_column (name : string) (cols : seq string) : seq string :=
  if name \in cols then cols else rcons cols name.

(* Lines 6-7: the AgeBand column is set on the object df names, in
   place: the object keeps its address. *)
Definition ageband_stmt : stmt := fun st =>
  f <- frame_of st (df (names st)) ;;
  column <- cut (col Age (rows f)) bins labels ;;
  a <- global (df (names st)) ;;
  Ok (mkState
        (set_nth f (objects st) a
           (mkFrame (add_column "AgeBand" (columns f))
                    (setitem_AgeBand [seq fields r | r <- rows f] column)))
        (names st)).

(* Lines 10-14 *)
Definition gender_stmt (ui : Session) : stmt := fun st =>
  f <- frame_of st (df (names st)) ;;
  Ok (mkState (objects st)
        (set_gender (multiselect ui "Gender" (unique (col Gender (rows f))))
                    (names st))).

Definition favc_stmt (ui : Session) : stmt := fun st =>
  f <- frame_of st (df (names st)) ;;
  Ok (mkState (objects st)
        (set_favc (multiselect ui "High Calorie Food (FAVC)"
                     (unique (col FAVC (rows f))))
                  (names st))).

Definition faf_stmt (ui : Session) : stmt := fun st =>
  Ok (mkState (objects st)
        (set_faf (slider ui "Physical Activity (FAF)" 0 3) (names st))).

Definition calc_stmt (ui : Session) : stmt := fun st =>
  f <- frame_of st (df (names st)) ;;
  Ok (mkState (objects st)
        (set_calc (multiselect ui "Alcohol (CALC)"
                     (unique (col CALC (rows f))))
                  (names st))).

Definition fh_stmt (ui : Session) : stmt := fun st =>
  f <- frame_of st (df (names st)) ;;
  Ok (mkState (objects st)
        (set_fh (multiselect ui "Family History"
                   (unique (col family_history_with_overweight (rows f))))
                (names st))).

(* df[mask] on an object: a new frame with the same columns and the
   selected rows; the object indexed is only read. *)
Definition getitem_frame (f : frame) (key : operand) : result frame :=
  view <- getitem (rows f) key ;;
  Ok (mkFrame (columns f) view).

(* Lines 17-22: the new frame is put in the store and filtered names
   it. *)
Definition filter_stmt : stmt := fun st =>
  f <- frame_of st (df (names st)) ;;
  gender_ <- global (gender (names st)) ;;
  favc_ <- global (favc (names st)) ;;
  calc_ <- global (calc (names st)) ;;
  faf_ <- global (faf (names st)) ;;
  new <- getitem_frame f (row_mask (rows f) gender_ favc_ calc_ faf_) ;;
  Ok (mkState (rcons (objects st) new)
              (set_filtered (size (objects st)) (names st))).

(* Line 25 *)
Definition chart_stmt : stmt := fun st =>
  f <- frame_of st (filtered (names st)) ;;
  fig <- px_bar (rows f) cGender cNObeyesdad "Obesity by Gender" ;;
  Ok (mkState (objects st) (set_fig1 fig (names st))).

(* Line 26 *)
Definition plotly_chart_stmt : stmt := fun st =>
  fig <- global (fig1 (names st)) ;;
  Ok (mkState (objects st) (show fig (names st))).

Definition app (csv : seq Respondent) (ui : Session) : result state :=
  st <- read_csv_stmt csv fresh ;;
  st <- ageband_stmt st ;;
  st <- gender_stmt ui st ;;
  st <- favc_stmt ui st ;;
  st <- faf_stmt ui st ;;
  st <- calc_stmt ui st ;;
  st <- fh_stmt ui st ;;
  st <- filter_stmt st ;;
  st <- chart_stmt st ;;
  plotly_chart_stmt st.

End Store.

(* --------------------------------------------------------------------- *)
(* The specification's vocabulary                                         *)
(* --------------------------------------------------------------------- *)

(* The filter condition of one row, as the specification words it. *)
Definition spec_mask (gender favc calc : seq string) (faf : Z) (r : Row)
  : bool :=
  [&& (Gender (fields r) \in gender) || (gender == [::]),
      (FAVC (fields r) \in favc) || (favc == [::]),
      (CALC (fields r) \in calc) || (calc == [::])
    & ge (FAF (fields r)) (of_int faf)].

(* The same condition with the Gender dimension left out. *)
Definition spec_mask_no_gender (favc calc : seq string) (faf : Z) (r : Row)
  : bool :=
  [&& (FAVC (fields r) \in favc) || (favc == [::]),
      (CALC (fields r) \in calc) || (calc == [::])
    & ge (FAF (fields r)) (of_int faf)].

(* x < y on cells. *)
Definition lt (x y : number) : bool := le x y && ~~ le y x.

(* The bucket (lo, hi]: open on the left, closed on the right. *)
Definition in_bucket (lo hi : Z) (age : number) : bool :=
  lt (of_int lo) age && le age (of_int hi).

(* The bucket table of the specification. *)
Definition spec_AgeBand (age : number) : option string :=
  if in_bucket 0 20 age then Some "<20"
  else if in_bucket 20 25 age then Some "20-25"
  else if in_bucket 25 30 age then Some "26-30"
  else if in_bucket 30 40 age then Some "31-40"
  else if in_bucket 40 100 age then Some "41+"
  else None.

(* s' is s with values added; an empty selection is not grown, since
   picking a first value turns "no restriction" into a restriction. *)
Definition extends (s s' : seq string) : bool :=
  if s is [::] then s' == [::] else all (fun v => v \in s') s.

(* Whether a row has a value in the column. *)
Definition present (color : column_name) (r : Row) : bool :=
  cell color r != None.

(* The trace of one value of the color column. *)
Definition valued_trace (view : DataFrame) (x color : column_name)
    (c : string) : Trace :=
  bar_trace x (Some c, [seq r <- view | cell color r == Some c]).

(* The figure px.bar returns, case by case (see px_bar_ok): a frame with
   a value in the color column is drawn without its rows that miss one,
   one trace per value; a frame with rows but no value at all is one
   trace "nan"; the empty frame gives a figure without traces and
   without a legend title. *)
Definition bar_figure (view : DataFrame) (x color : column_name)
    (ttl : string) : Figure :=
  if has (present color) view then
    mkFigure ttl (column_label x) "count" (Some (column_label color))
      [seq valued_trace view x color c
      | c <- pmap id (unique [seq cell color r | r <- view])]
  else if nilp view then
    mkFigure ttl (column_label x) "count" None [::]
  else
    mkFigure ttl (column_label x) "count" (Some (column_label color))
      [:: bar_trace x (None, view)].

(* The rows px.bar draws. *)
Definition drawn (color : column_name) (view : DataFrame) : DataFrame :=
  if has (present color) view then [seq r <- view | present color r]
  else view.

(* The table df of a run. *)
Definition derived (csv : seq Respondent) : DataFrame :=
  [seq mkRow r (cut1 bins labels (Age r)) | r <- csv].

(* The state a run ends in, in closed form (see app_ok). *)
Definition final (csv : seq Respondent) (ui : Session) : Globals :=
  let d := derived csv in
  let gender := multiselect ui "Gender" (unique (col Gender d)) in
  let favc := multiselect ui "High Calorie Food (FAVC)" (unique (col FAVC d)) in
  let faf := slider ui "Physical Activity (FAF)" 0 3 in
  let calc := multiselect ui "Alcohol (CALC)" (unique (col CALC d)) in
  let fh := multiselect ui "Family History"
              (unique (col family_history_with_overweight d)) in
  let view := [seq r <- d | spec_mask gender favc calc faf r] in
  let fig := bar_figure view cGender cNObeyesdad "Obesity by Gender" in
  mkGlobals (Some d) (Some gender) (Some favc) (Some faf) (Some calc)
            (Some fh) (Some view) (Some fig) [:: fig].

(* --------------------------------------------------------------------- *)
(* The three-respondent scenario                                          *)
(* --------------------------------------------------------------------- *)

Definition respondent1 : Respondent :=
  mkRespondent "Male" (of_int 25) "no" (of_int 1) "Sometimes" "no"
               (Some "Normal").
Definition respondent2 : Respondent :=
  mkRespondent "Female" (of_int 19) "yes" (of_int 0) "no" "yes"
               (Some "Obesity").
Definition respondent3 : Respondent :=
  mkRespondent "Male" (of_int 42) "no" (of_int 3) "Frequently" "no"
               (Some "Overweight").

Definition scenario_csv : seq Respondent :=
  [:: respondent1; respondent2; respondent3].

Definition row1 : Row := mkRow respondent1 (Some "20-25").
Definition row2 : Row := mkRow respondent2 (Some "<20").
Definition row3 : Row := mkRow respondent3 (Some "41+").

(* A view with a row whose NObeyesdad cell is empty. *)
Definition respondent4 : Respondent :=
  mkRespondent "Male" (of_int 30) "no" (of_int 2) "no" "no" None.

Definition gap_view : DataFrame :=
  [:: row1; mkRow respondent4 (Some "26-30")].

(* The store after lines 5-14 of the scenario. *)
Definition scenario_store : Store.state :=
  Store.mkState
    [:: Store.mkFrame (rcons Store.csv_columns "AgeBand")
                      (derived scenario_csv)]
    (Store.mkBindings (Some 0) (Some [:: "Male"]) (Some [::]) (Some 1%Z)
                      (Some [::]) (Some [::]) None None [::]).

(* Gender = ["Male"], FAF slider at 1, the other multi-selects empty. *)
Definition scenario_ui : Session :=
  mkSession (fun label => if label == "Gender" then [:: "Male"] else [::])
            (fun _ => 1%Z).

(* The same widget state but for the family-history picks. *)
Definition scenario_ui_fh (picks : seq string) : Session :=
  mkSession (fun label => if label == "Gender" then [:: "Male"]
                          else if label == "Family History" then picks
                          else [::])
            (fun _ => 1%Z).


(* --------------------------------------------------------------------- *)
(* Vocabulary for the properties of the remaining lines                   *)
(* --------------------------------------------------------------------- *)

(* The same respondent with another Age cell. *)
Definition with_Age (a : number) (r : Respondent) : Respondent :=
  mkRespondent (Gender r) a (FAVC r) (FAF r) (CALC r)
               (family_history_with_overweight r) (NObeyesdad r).

(* A row with its Age cell and its AgeBand blanked: what is left is what
   the widgets, the mask and the chart read. *)
Definition blank_Age (r : Row) : Row := mkRow (with_Age NaN (fields r)) None.

(* Nothing picked in any multi-select, the slider at its minimum. *)
Definition default_ui : Session := mkSession (fun _ => [::]) (fun _ => 0%Z).

(* A band is one of the labels, or missing. *)
Definition label_or_missing (labels : seq string) (band : option string)
  : bool :=
  if band is Some l then l \in labels else true.

(* --------------------------------------------------------------------- *)
(* The embedding on small inputs                                          *)
(* --------------------------------------------------------------------- *)

Example unique_first_appearance :
  unique [:: "b"; "a"; "b"; "c"; "a"] = [:: "b"; "a"; "c"].
Proof. by []. Qed.

Example cut1_edges :
  [seq cut1 bins labels x
  | x <- [:: of_int 0; Finite (1 # 2); of_int 25; Finite (51 # 2);
             of_int 100; Finite (201 # 2); of_int (-3); NaN; PosInf]]
  = [:: None; Some "<20"; Some "20-25"; Some "26-30"; Some "41+";
        None; None; None; None].
Proof. by []. Qed.

Example cut_checks_bins :
  cut [:: of_int 5] [:: 0; 30; 20]%Z [:: "a"; "b"] = Raise ValueError
  /\ cut [:: of_int 5] [:: 0; 20; 30]%Z [:: "a"] = Raise ValueError.
Proof. by []. Qed.

Example and_broadcasts :
  and_ (and_ (PyBool true) (PyBool true)) (Series [:: true; false])
  = Series [:: true; false]
  /\ and_ (Series [:: true; true]) (Series [:: true; false])
     = Series [:: true; false].
Proof. by []. Qed.

Example getitem_bare_bool : getitem (derived scenario_csv) (PyBool true)
                            = Raise KeyError.
Proof. by []. Qed.

Example unbound_name : filter_stmt fresh = Raise NameError.
Proof. by []. Qed.

Example ageband_in_place :
  (st <- Store.read_csv_stmt scenario_csv Store.fresh ;; Store.ageband_stmt st)
  = Ok (Store.mkState
          [:: Store.mkFrame (rcons Store.csv_columns "AgeBand")
                            (derived scenario_csv)]
          (Store.set_df 0 (Store.names Store.fresh))).
Proof. by []. Qed.

Example px_bar_on_gap_view :
  px_bar gap_view cGender cNObeyesdad "Obesity by Gender"
  = Ok (mkFigure "Obesity by Gender" "Gender" "count" (Some "NObeyesdad")
          [:: mkTrace "Normal" [:: Some "Male"] [:: 1]]).
Proof. by []. Qed.

Example px_bar_on_empty :
  px_bar [::] cGender cNObeyesdad "Obesity by Gender"
  = Ok (mkFigure "Obesity by Gender" "Gender" "count" None [::]).
Proof. by []. Qed.

Example fh_is_collected :
  fh (final scenario_csv (scenario_ui_fh [:: "yes"])) = Some [:: "yes"]
  /\ fh (final scenario_csv (scenario_ui_fh [:: "no"])) = Some [:: "no"].
Proof. by []. Qed.

(* --------------------------------------------------------------------- *)
(* Masks                                                                  *)
(* --------------------------------------------------------------------- *)

Section Masks.

Variable T : eqType.
Implicit Types (p q : T -> bool) (s : seq T).

Lemma and_aligned_map p q s :
  and_aligned [seq p x | x <- s] [seq q x | x <- s]
  = [seq p x && q x | x <- s].
Proof. by elim: s => [|x s IH] //=; rewrite IH. Qed.

Lemma and_aligned_size (a b : seq bool) :
  size (and_aligned a b) = maxn (size a) (size b).
Proof.
elim: a b => [|x a IH] [|y b] //=; rewrite ?size_nseq ?max0n ?maxn0 //.
by rewrite IH maxnSS.
Qed.

Lemma filter_imply p q s :
  (forall x, p x -> q x) -> subseq [seq x <- s | p x] [seq x <- s | q x].
Proof.
move=> pq; have -> : [seq x <- s | p x] = [seq x <- [seq x <- s | q x] | p x].
  rewrite -filter_predI; apply: eq_filter => x /=.
  by case px: (p x) => //; rewrite (pq _ px).
exact: filter_subseq.
Qed.

End Masks.

Lemma row_maskE d gender favc calc faf :
  row_mask d gender favc calc faf
  = Series [seq spec_mask gender favc calc faf r | r <- d].
Proof.
rewrite /row_mask /isin /ge_scalar /col /spec_mask -!map_comp.
case: gender => [|g1 gs]; case: favc => [|f1 fs]; case: calc => [|c1 cs] /=;
  rewrite ?and_aligned_map -?map_comp ?and_aligned_map;
  congr Series; apply: eq_map => r /=;
  by rewrite ?orbT ?orbF ?andbT ?andbA.
Qed.

(* --------------------------------------------------------------------- *)
(* The run, step by step                                                  *)
(* --------------------------------------------------------------------- *)

Lemma filtered_exprE d gender favc calc faf :
  filtered_expr d gender favc calc faf
  = Ok [seq r <- d | spec_mask gender favc calc faf r].
Proof.
by rewrite /filtered_expr row_maskE /getitem size_map eqxx filter_mask.
Qed.

Lemma cut_bins x : cut x bins labels = Ok [seq cut1 bins labels v | v <- x].
Proof. by []. Qed.

Lemma setitem_derived csv :
  setitem_AgeBand csv [seq cut1 bins labels (Age r) | r <- csv] = derived csv.
Proof. by rewrite /setitem_AgeBand /derived; elim: csv => //= r s ->. Qed.

Lemma load_ok csv g : load_stmt csv g = Ok (set_df (derived csv) g).
Proof. by rewrite /load_stmt cut_bins /bind -map_comp setitem_derived. Qed.

(* Comparisons of a rational with an integer bin edge, as linear facts. *)
Lemma le_int_frac (n : Z) (d : positive) (k : Z) :
  Qle_bool (n # d) (inject_Z k) = (n <=? k * Z.pos d)%Z.
Proof. by rewrite /Qle_bool /inject_Z; cbn [Qnum Qden]; rewrite Z.mul_1_r. Qed.

Lemma int_le_frac (n : Z) (d : positive) (k : Z) :
  Qle_bool (inject_Z k) (n # d) = (k * Z.pos d <=? n)%Z.
Proof. by rewrite /Qle_bool /inject_Z; cbn [Qnum Qden]; rewrite Z.mul_1_r. Qed.

(* Splits on every test against a bin edge; the impossible combinations
   are closed by linear arithmetic. *)
Ltac bin_edges :=
  repeat match goal with
         | |- context [Z.leb ?a ?b] => case: (Z.leb_spec a b) => ?
         end; first [done | exfalso; lia].

Lemma cut1_spec age : cut1 bins labels age = spec_AgeBand age.
Proof.
case: age => [[n d]|||] //.
rewrite /spec_AgeBand /in_bucket /lt /cut1 /searchsorted_left /bins /of_int.
rewrite /le /isna.
cbn [find size orb].
rewrite !le_int_frac !int_le_frac.
by bin_edges.
Qed.

Lemma filter_stmt_ok g d gender_ favc_ calc_ faf_ :
  df g = Some d -> gender g = Some gender_ -> favc g = Some favc_ ->
  calc g = Some calc_ -> faf g = Some faf_ ->
  filter_stmt g
  = Ok (set_filtered [seq r <- d | spec_mask gender_ favc_ calc_ faf_ r] g).
Proof.
by rewrite /filter_stmt => -> -> -> -> ->; rewrite /= filtered_exprE.
Qed.

(* --------------------------------------------------------------------- *)
(* Series.unique and the chart                                            *)
(* --------------------------------------------------------------------- *)

Section Unique.

Variable T : eqType.
Implicit Types (s : seq T) (x : T).

Lemma mem_unique s : unique s =i s.
Proof. by move=> x; rewrite /unique mem_rev mem_undup mem_rev. Qed.

Lemma unique_uniq s : uniq (unique s).
Proof. by rewrite /unique rev_uniq undup_uniq. Qed.

Lemma sum_pick s (F : T -> nat) x :
  uniq s -> \sum_(i <- s | i == x) F i = if x \in s then F x else 0.
Proof.
elim: s => [|y s IH] /=; first by rewrite big_nil.
case/andP=> ys us; rewrite big_cons in_cons IH // eq_sym.
case: eqP => [E|_] //=.
by rewrite E (negbTE ys) addn0.
Qed.

End Unique.

Section OneValue.

Variable T : eqType.

(* A duplicate-free list whose elements are all the same has at most one
   element. *)
Lemma uniq_constant (u : seq T) (k : T) :
  uniq u -> all (pred1 k) u -> size u <= 1.
Proof.
case: u => [|a [|b u]] //= /andP [nab _] /and3P [/eqP ak /eqP bk _].
by move: nab; rewrite ak bk mem_head.
Qed.

End OneValue.

Lemma getitem_list0 (T : Type) (a : T) (s : seq T) :
  getitem_list (a :: s) 0 = Ok a.
Proof. by []. Qed.

Section Chart.

Variables (view : DataFrame) (x color : column_name) (ttl : string).

Let u := unique [seq cell color r | r <- view].

Lemma cell_in_unique r : r \in view -> cell color r \in u.
Proof. by move=> rin; rewrite /u mem_unique map_f. Qed.

Lemma unique_cell k : k \in u -> exists2 r, r \in view & cell color r = k.
Proof. by rewrite /u mem_unique => /mapP [r rin ->]; exists r. Qed.

Lemma present_value :
  has (present color) view -> exists c, c \in pmap id u.
Proof.
case/hasP=> r rin; rewrite /present; case E: (cell color r) => [c|] // _.
by exists c; rewrite mem_pmap map_id -E cell_in_unique.
Qed.

(* px.bar never raises, and its figure is the one described case by
   case by bar_figure. *)
Lemma px_bar_ok : px_bar view x color ttl = Ok (bar_figure view x color ttl).
Proof.
rewrite /px_bar /get_groups /bar_figure -/u.
have uu : uniq u by rewrite /u unique_uniq.
case: ifP => [sz1|sz1].
- have [k uE] : exists k, u = [:: k].
    by case: (u) sz1 => [|k [|k' u']] // _; exists k.
  have allk : all (fun r => cell color r == k) view.
    by apply/allP => r /cell_in_unique; rewrite uE inE.
  have [r rin rk] : exists2 r, r \in view & cell color r = k.
    by apply: unique_cell; rewrite uE mem_head.
  rewrite uE getitem_list0 /=.
  case: k uE allk rk => [c|] uE allk rk.
  + have -> : has (present color) view.
      by apply/hasP; exists r => //; rewrite /present rk.
    by rewrite /= /valued_trace (all_filterP allk).
  + have -> : has (present color) view = false.
      apply/negbTE/hasPn => r' /(allP allk) /eqP.
      by rewrite /present => ->.
    by case: (view) rin.
- case hasp: (has (present color) view).
  + have [c cin] := present_value hasp.
    case E: (pmap id u) cin => [|c0 cs] // _.
    by rewrite /= -map_comp.
  + have allN : all (pred1 None) u.
      apply/allP => k /unique_cell [r rin <-].
      by move/hasPn: (negbT hasp) => /(_ r rin); rewrite /present negbK.
    have := uniq_constant uu allN.
    case uE: (u) sz1 => [|k [|k' u']] // _ _.
    have -> : view = [::].
      case vE: (view) => [|r s] //.
      by have := @cell_in_unique r; rewrite uE vE mem_head => /(_ isT).
    by [].
Qed.


Hypothesis valued : has (present color) view.

Let fig := bar_figure view x color ttl.

Lemma valued_data :
  data fig = [seq valued_trace view x color c | c <- pmap id u].
Proof. by rewrite /fig /bar_figure valued. Qed.


Lemma trace_names : [seq trace_name t | t <- data fig] = pmap id u.
Proof. by rewrite valued_data -map_comp map_id_in. Qed.

Lemma trace_names_uniq : uniq [seq trace_name t | t <- data fig].
Proof.
have injS : injective (@Some string) by move=> a b [].
have canS : ocancel (@id (option string)) Some by case.
rewrite trace_names -(map_inj_uniq injS) (pmap_filter canS).
by rewrite filter_uniq // /u unique_uniq.
Qed.

Lemma segment_count c g :
  segment_height (valued_trace view x color c) g
  = count (fun r => (cell x r == Some g) && (cell color r == Some c)) view.
Proof.
rewrite /segment_height /= zip_map big_map big_filter_cond /=.
rewrite -sum1_count; apply: eq_bigl => r.
by rewrite andbC.
Qed.

Lemma bar_height_count g s :
  bar_height fig g s
  = count (fun r => (cell x r == Some g) && (cell color r == Some s)) view.
Proof.
rewrite /bar_height valued_data big_map /=.
under eq_bigr do rewrite segment_count.
have up : uniq (pmap id u).
  by move: trace_names_uniq; rewrite trace_names.
rewrite sum_pick // mem_pmap map_id.
case: ifP => // /negbT notin; symmetry; apply/eqP.
rewrite -leqn0 leqNgt -has_count; apply/hasPn => r rin.
apply: contra notin => /andP [_ /eqP <-].
exact: cell_in_unique.
Qed.

Lemma categories_mem g :
  (g \in categories fig)
  = (g \in pmap (cell x) [seq r <- view | present color r]).
Proof.
rewrite /categories mem_unique valued_data -map_comp !mem_pmap map_id.
apply/flatten_mapP/mapP => [[c _ /mapP [r]]|[r rin E]].
  rewrite mem_filter => /andP [/eqP rc rin] E; exists r => //.
  by rewrite mem_filter rin /present rc.
move: rin; rewrite mem_filter /present => /andP [].
case rc: (cell color r) => [c|] // _ rin.
exists c; first by rewrite mem_pmap map_id -rc cell_in_unique.
by rewrite E /=; apply: map_f; rewrite mem_filter rc eqxx.
Qed.

End Chart.


Lemma app_ok csv ui : app csv ui = Ok (final csv ui).
Proof.
rewrite /app load_ok /= /filter_stmt /= filtered_exprE /=.
by rewrite /chart_stmt /= px_bar_ok.
Qed.

(* --------------------------------------------------------------------- *)
(* The row filter                                                         *)
(* --------------------------------------------------------------------- *)

(** C1: whatever the table and the widget values, the filter statement
    binds [filtered] to exactly the rows of df that satisfy
    (Gender selected or no gender selected) and (FAVC selected or none)
    and (CALC selected or none) and FAF >= threshold, in table order; a
    row is in the view iff it is in df and satisfies that condition; and
    with Gender = [] the view is the one obtained from the condition with
    the Gender dimension left out. *)
Theorem C1_filtered_rows_exactly
    (d : DataFrame) (gender_ favc_ calc_ : seq string) (faf_ : Z)
    (fh_ : option (seq string)) (old : option DataFrame)
    (fig : option Figure) (pg : seq Figure) :
  let g := mkGlobals (Some d) (Some gender_) (Some favc_) (Some faf_)
                     (Some calc_) fh_ old fig pg in
  let g0 := set_gender [::] g in
  let view := [seq r <- d | spec_mask gender_ favc_ calc_ faf_ r] in
  [/\ filter_stmt g = Ok (set_filtered view g),
      forall r, (r \in view) = (r \in d) && spec_mask gender_ favc_ calc_ faf_ r
    & filter_stmt g0
      = Ok (set_filtered [seq r <- d | spec_mask_no_gender favc_ calc_ faf_ r]
                         g0)].
Proof.
move=> g g0 view; split.
- exact: filter_stmt_ok.
- by move=> r; rewrite mem_filter andbC.
- by rewrite (@filter_stmt_ok g0 d [::] favc_ calc_ faf_).
Qed.

(** C2: two runs on the same table whose widget states differ only in
    what is picked in the "Family History" multi-select both succeed and
    end with the same filtered view, hence the same row count, and the
    same chart. *)
Theorem C2_family_history_ignored
    (csv : seq Respondent) (ui1 ui2 : Session) :
  (forall label, label != "Family History" ->
     picked ui1 label = picked ui2 label) ->
  (forall label, position ui1 label = position ui2 label) ->
  exists g1 g2,
    [/\ app csv ui1 = Ok g1, app csv ui2 = Ok g2,
        filtered g1 = filtered g2,
        omap size (filtered g1) = omap size (filtered g2)
      & fig1 g1 = fig1 g2 /\ page g1 = page g2].
Proof.
move=> same_picks same_pos.
exists (final csv ui1), (final csv ui2); rewrite !app_ok.
have E : filtered (final csv ui1) = filtered (final csv ui2).
  rewrite /final /= /multiselect /slider.
  by rewrite !same_picks // same_pos.
split=> //; first by rewrite E.
by move: E; rewrite /final /= => -[->].
Qed.

(** Two runs of the scenario that differ in the family-history picks. *)
Lemma C2_family_history_ignored_witness :
  exists g1 g2,
    [/\ app scenario_csv (scenario_ui_fh [:: "yes"]) = Ok g1,
        app scenario_csv (scenario_ui_fh [:: "no"]) = Ok g2,
        filtered g1 = filtered g2,
        omap size (filtered g1) = omap size (filtered g2)
      & fig1 g1 = fig1 g2 /\ page g1 = page g2].
Proof.
apply: C2_family_history_ignored => // label /negbTE notfh /=.
by rewrite notfh.
Defined.

(* --------------------------------------------------------------------- *)
(* AgeBand                                                                *)
(* --------------------------------------------------------------------- *)

Lemma spec_AgeBand_defined age :
  isSome (spec_AgeBand age) = in_bucket 0 100 age.
Proof.
case: age => [[n d]|||] //.
rewrite /spec_AgeBand /in_bucket /lt /of_int /le.
rewrite !le_int_frac !int_le_frac.
by bin_edges.
Qed.

(** C3: loading always succeeds and gives every record the AgeBand that
    the bucket table (0,20] "<20", (20,25] "20-25", (25,30] "26-30",
    (30,40] "31-40", (40,100] "41+" assigns to its Age, left edge
    excluded and right edge included; the band is a function of Age
    alone; ages 19 and 20 give "<20", 21 gives "20-25", 41 gives "41+";
    and the band is defined exactly for the ages in (0,100], any other
    age (NaN and the infinities included) giving the missing band. *)
Theorem C3_AgeBand_buckets (csv : seq Respondent) (age : number) :
  [/\ load_stmt csv fresh
      = Ok (set_df [seq mkRow r (spec_AgeBand (Age r)) | r <- csv] fresh),
      cut1 bins labels age = spec_AgeBand age,
      isSome (cut1 bins labels age) = in_bucket 0 100 age
    & [/\ cut1 bins labels (of_int 19) = Some "<20",
          cut1 bins labels (of_int 20) = Some "<20",
          cut1 bins labels (of_int 21) = Some "20-25"
        & cut1 bins labels (of_int 41) = Some "41+"]].
Proof.
split=> //.
- rewrite load_ok /derived; congr (Ok (set_df _ _)).
  by apply: eq_map => r; rewrite cut1_spec.
- exact: cut1_spec.
- by rewrite cut1_spec spec_AgeBand_defined.
Qed.

(* --------------------------------------------------------------------- *)
(* The FAF threshold                                                      *)
(* --------------------------------------------------------------------- *)

Lemma ge_threshold_eq (q : Q) (n : Z) :
  Qeq q (inject_Z n) -> ge (Finite q) (of_int n).
Proof.
case: q => a b; rewrite /ge /le /of_int int_le_frac /Qeq /inject_Z.
cbn [Qnum Qden] => E; apply/Z.leb_le; lia.
Qed.

(** C4: a row of df whose FAF equals the slider value, and which passes
    the Gender, FAVC and CALC selections (each either empty or containing
    the row's value), is in the filtered view. *)
Theorem C4_threshold_inclusive
    (d : DataFrame) (gender_ favc_ calc_ : seq string) (faf_ : Z)
    (r : Row) (q : Q) :
  r \in d ->
  FAF (fields r) = Finite q -> Qeq q (inject_Z faf_) ->
  (Gender (fields r) \in gender_) || (gender_ == [::]) ->
  (FAVC (fields r) \in favc_) || (favc_ == [::]) ->
  (CALC (fields r) \in calc_) || (calc_ == [::]) ->
  exists view,
    filtered_expr d gender_ favc_ calc_ faf_ = Ok view /\ r \in view.
Proof.
move=> rd Efaf Eq okg okf okc.
exists [seq r <- d | spec_mask gender_ favc_ calc_ faf_ r].
rewrite filtered_exprE mem_filter rd andbT /spec_mask okg okf okc Efaf.
by split=> //=; apply: ge_threshold_eq.
Qed.

(** In the scenario with the slider at 1, respondent 1 has FAF = 1 and is
    kept. *)
Lemma C4_threshold_inclusive_witness :
  exists view,
    filtered_expr (derived scenario_csv) [:: "Male"] [::] [::] 1 = Ok view
    /\ row1 \in view.
Proof.
apply: (@C4_threshold_inclusive _ _ _ _ _ row1 (inject_Z 1));
  by vm_compute.
Defined.

(* --------------------------------------------------------------------- *)
(* The chart                                                              *)
(* --------------------------------------------------------------------- *)

(** C5: on the three-row table with Gender = ["Male"], the FAF slider at
    1 and nothing else selected, the run succeeds, the filtered view is
    rows 1 and 3, and the chart has the single category "Male" with the
    two series "Normal" and "Overweight", each of height 1. *)
Theorem C5_scenario :
  exists g fig,
    [/\ app scenario_csv scenario_ui = Ok g,
        df g = Some [:: row1; row2; row3],
        filtered g = Some [:: row1; row3],
        fig1 g = Some fig /\ page g = [:: fig]
      & [/\ data fig = [:: mkTrace "Normal" [:: Some "Male"] [:: 1];
                           mkTrace "Overweight" [:: Some "Male"] [:: 1]],
            categories fig = [:: "Male"],
            bar_height fig "Male" "Normal" = 1,
            bar_height fig "Male" "Overweight" = 1
          & title fig = "Obesity by Gender"]].
Proof.
exists (final scenario_csv scenario_ui),
       (bar_figure [:: row1; row3] cGender cNObeyesdad "Obesity by Gender").
rewrite app_ok; split=> //; split=> //.
- by rewrite bar_height_count.
- by rewrite bar_height_count.
Qed.






(* --------------------------------------------------------------------- *)
(* The source table across the run                                        *)
(* --------------------------------------------------------------------- *)

Section StoreFacts.

Implicit Types (h : Store.heap) (f : Store.frame) (a : nat).

Lemma deref_bound h a f : Store.deref h a = Ok f -> a < size h.
Proof.
rewrite /Store.deref /getitem_list /onth.
case: (ltnP a (size h)) => // le_ha.
by rewrite nth_default // size_map.
Qed.

Lemma deref_rcons_old h f a :
  a < size h -> Store.deref (rcons h f) a = Store.deref h a.
Proof.
move=> lt_a; rewrite /Store.deref /getitem_list /onth map_rcons nth_rcons.
by rewrite size_map lt_a.
Qed.

Lemma deref_rcons_new h f : Store.deref (rcons h f) (size h) = Ok f.
Proof.
rewrite /Store.deref /getitem_list /onth map_rcons nth_rcons size_map.
by rewrite ltnn eqxx.
Qed.

Lemma take_rcons_old h f : take (size h) (rcons h f) = h.
Proof. by rewrite -cats1 take_size_cat. Qed.

(* The filter statement on a state whose names are bound. *)
Lemma store_filter_ok (st : Store.state) a f gender_ favc_ calc_ faf_ :
  Store.df (Store.names st) = Some a ->
  Store.deref (Store.objects st) a = Ok f ->
  Store.gender (Store.names st) = Some gender_ ->
  Store.favc (Store.names st) = Some favc_ ->
  Store.calc (Store.names st) = Some calc_ ->
  Store.faf (Store.names st) = Some faf_ ->
  Store.filter_stmt st
  = Ok (Store.mkState
          (rcons (Store.objects st)
             (Store.mkFrame (Store.columns f)
                [seq r <- Store.rows f
                | spec_mask gender_ favc_ calc_ faf_ r]))
          (Store.set_filtered (size (Store.objects st)) (Store.names st))).
Proof.
rewrite /Store.filter_stmt /Store.frame_of => -> /= -> /= -> -> -> -> /=.
by rewrite /Store.getitem_frame -/(filtered_expr _ _ _ _ _) filtered_exprE.
Qed.

End StoreFacts.

(** C8: on any store in which df names a frame and the control values
    are bound, the filter statement succeeds, and so does a second
    execution right after it.  Every object that was in the store, the
    frame of df with its AgeBand column among them, is the same after one
    and after two executions, and df names the same object; each
    execution makes a new object, distinct from the frame of df, and both
    new frames have the columns of df and the same rows: those of df that
    satisfy the mask. *)
Theorem C8_filter_repeatable
    (st : Store.state) (a : nat) (f : Store.frame)
    (gender_ favc_ calc_ : seq string) (faf_ : Z) :
  Store.df (Store.names st) = Some a ->
  Store.deref (Store.objects st) a = Ok f ->
  Store.gender (Store.names st) = Some gender_ ->
  Store.favc (Store.names st) = Some favc_ ->
  Store.calc (Store.names st) = Some calc_ ->
  Store.faf (Store.names st) = Some faf_ ->
  exists st1 st2 view,
    [/\ Store.filter_stmt st = Ok st1 /\ Store.filter_stmt st1 = Ok st2,
        take (size (Store.objects st)) (Store.objects st1) = Store.objects st
        /\ take (size (Store.objects st)) (Store.objects st2)
           = Store.objects st,
        [/\ Store.df (Store.names st1) = Some a,
            Store.df (Store.names st2) = Some a,
            Store.deref (Store.objects st1) a = Ok f
          & Store.deref (Store.objects st2) a = Ok f],
        exists v1 v2,
          [/\ Store.filtered (Store.names st1) = Some v1,
              Store.filtered (Store.names st2) = Some v2,
              (v1 != a) && (v2 != a) && (v1 != v2),
              Store.deref (Store.objects st1) v1 = Ok view
            & Store.deref (Store.objects st2) v2 = Ok view
              /\ Store.deref (Store.objects st2) v1 = Ok view]
      & Store.columns view = Store.columns f
        /\ Store.rows view
           = [seq r <- Store.rows f | spec_mask gender_ favc_ calc_ faf_ r]].
Proof.
case: st => h n /= Edf Ef Eg Efa Eca Ef_.
have lt_a : a < size h := deref_bound Ef.
set view := Store.mkFrame (Store.columns f)
              [seq r <- Store.rows f | spec_mask gender_ favc_ calc_ faf_ r].
set st1 := Store.mkState (rcons h view) (Store.set_filtered (size h) n).
set st2 := Store.mkState (rcons (rcons h view) view)
             (Store.set_filtered (size h).+1 n).
have Ef1 : Store.deref (rcons h view) a = Ok f by rewrite deref_rcons_old.
have Ef2 : Store.deref (rcons (rcons h view) view) a = Ok f.
  by rewrite deref_rcons_old ?size_rcons ?ltnS 1?ltnW.
exists st1, st2, view; split=> //.
- split.
    by rewrite (@store_filter_ok (Store.mkState h n) a f gender_ favc_ calc_
                  faf_).
  by rewrite (@store_filter_ok st1 a f gender_ favc_ calc_ faf_) //= size_rcons.
- split; first exact: take_rcons_old.
  by rewrite /= -cats1 -(cats1 h) -catA take_size_cat.
- exists (size h), (size h).+1; split=> //=.
  + have lt_a' : a < (size h).+1 := ltnW lt_a.
    by rewrite (gtn_eqF lt_a) (gtn_eqF lt_a') (ltn_eqF (ltnSn _)).
  + exact: deref_rcons_new.
  + split; first by rewrite -(size_rcons h view) deref_rcons_new.
    by rewrite deref_rcons_old ?size_rcons // deref_rcons_new.
Qed.

(** The scenario: df is object 0; the two executions make objects 1 and
    2, both holding rows 1 and 3. *)
Lemma C8_filter_repeatable_witness :
  exists st1 st2 view,
    [/\ Store.filter_stmt scenario_store = Ok st1
        /\ Store.filter_stmt st1 = Ok st2,
        take (size (Store.objects scenario_store)) (Store.objects st1)
        = Store.objects scenario_store
        /\ take (size (Store.objects scenario_store)) (Store.objects st2)
           = Store.objects scenario_store,
        [/\ Store.df (Store.names st1) = Some 0,
            Store.df (Store.names st2) = Some 0,
            Store.deref (Store.objects st1) 0
            = Ok (Store.mkFrame (rcons Store.csv_columns "AgeBand")
                                (derived scenario_csv))
          & Store.deref (Store.objects st2) 0
            = Ok (Store.mkFrame (rcons Store.csv_columns "AgeBand")
                                (derived scenario_csv))],
        exists v1 v2,
          [/\ Store.filtered (Store.names st1) = Some v1,
              Store.filtered (Store.names st2) = Some v2,
              (v1 != 0) && (v2 != 0) && (v1 != v2),
              Store.deref (Store.objects st1) v1 = Ok view
            & Store.deref (Store.objects st2) v2 = Ok view
              /\ Store.deref (Store.objects st2) v1 = Ok view]
      & Store.columns view = rcons Store.csv_columns "AgeBand"
        /\ Store.rows view
           = [seq r <- derived scenario_csv
             | spec_mask [:: "Male"] [::] [::] 1 r]].
Proof.
by apply: (@C8_filter_repeatable scenario_store 0
            (Store.mkFrame (rcons Store.csv_columns "AgeBand")
                           (derived scenario_csv))).
Defined.

(* The run over the store ends with the frames and the values of the
   run above: df is object 0, the table with its AgeBand column, and
   filtered is object 1, the view. *)
Lemma store_app_ok csv ui :
  Store.app csv ui
  = Ok (Store.mkState
          [:: Store.mkFrame (rcons Store.csv_columns "AgeBand") (derived csv);
              Store.mkFrame (rcons Store.csv_columns "AgeBand")
                            (oapp id [::] (filtered (final csv ui)))]
          (Store.mkBindings (Some 0) (gender (final csv ui))
             (favc (final csv ui)) (faf (final csv ui))
             (calc (final csv ui)) (fh (final csv ui)) (Some 1)
             (fig1 (final csv ui)) (page (final csv ui)))).
Proof.
have E : setitem_AgeBand
           [seq fields r | r <- [seq mkRow r None | r <- csv]]
           [seq cut1 bins labels v
           | v <- col Age [seq mkRow r None | r <- csv]]
         = derived csv.
  rewrite /col -!map_comp -(setitem_derived csv); congr setitem_AgeBand.
  by rewrite map_id_in.
rewrite /Store.app /Store.read_csv_stmt /= /Store.ageband_stmt /= !E.
rewrite /Store.filter_stmt /= /Store.getitem_frame.
rewrite -/(filtered_expr _ _ _ _ _) filtered_exprE /=.
by rewrite /Store.chart_stmt /= px_bar_ok.
Qed.

Lemma derived_fields csv : [seq fields r | r <- derived csv] = csv.
Proof. by rewrite /derived -map_comp map_id_in. Qed.

Lemma derived_AgeBand csv :
  [seq AgeBand r | r <- derived csv]
  = [seq cut1 bins labels (Age (fields r)) | r <- derived csv].
Proof. by rewrite /derived -!map_comp. Qed.

(** C9: every run succeeds; its filtered view is a sub-sequence of df, so
    each of its rows is a row of df with all its columns; df at the end
    of the run is the table as load left it, whose records are the CSV
    records and whose AgeBand column is the bucket of the Age column; the
    rows of the view carry that same AgeBand. *)
Theorem C9_view_subset_and_AgeBand (csv : seq Respondent) (ui : Session) :
  exists g d view,
    [/\ app csv ui = Ok g /\ load_stmt csv fresh = Ok (set_df d fresh),
        df g = Some d /\ filtered g = Some view,
        subseq view d /\ all (fun r => r \in d) view,
        [seq fields r | r <- d] = csv
      & [seq AgeBand r | r <- d]
        = [seq cut1 bins labels (Age (fields r)) | r <- d]
        /\ [seq AgeBand r | r <- view]
           = [seq cut1 bins labels (Age (fields r)) | r <- view]].
Proof.
exists (final csv ui), (derived csv); eexists; rewrite app_ok load_ok.
split; [by [] | by split; [|reflexivity] | | exact: derived_fields |].
- split; first exact: filter_subseq.
  by apply/allP => r; rewrite mem_filter => /andP [].
- split; first exact: derived_AgeBand.
  rewrite /derived filter_map -!map_comp.
  exact: eq_map.
Qed.

(* --------------------------------------------------------------------- *)
(* Monotonicity                                                           *)
(* --------------------------------------------------------------------- *)

Lemma ge_threshold_antitone (x : number) (lo hi : Z) :
  (lo <= hi)%Z -> ge x (of_int hi) -> ge x (of_int lo).
Proof.
case: x => [[a b]|||] // lohi; rewrite /ge /le /of_int !int_le_frac.
move/Z.leb_le => H; apply/Z.leb_le; nia.
Qed.

Lemma extends_pass (s s' : seq string) (v : string) :
  extends s s' -> (v \in s) || (s == [::]) -> (v \in s') || (s' == [::]).
Proof.
case: s => [|a s]; first by move=> /= ->; rewrite orbT.
by rewrite /extends => /allP sub; rewrite orbF => /sub ->.
Qed.

(** C10: raising the FAF threshold, everything else fixed, leaves a
    sub-sequence of the former view (no row is added); and growing the
    Gender, FAVC or CALC selection, a selection being grown only when it
    is not empty, leaves the former view a sub-sequence of the new one
    (no row is removed). *)
Theorem C10_monotone
    (d : DataFrame) (gender_ favc_ calc_ gender' favc' calc' : seq string)
    (faf_ faf' : Z) :
  (faf_ <= faf')%Z ->
  extends gender_ gender' -> extends favc_ favc' -> extends calc_ calc' ->
  exists view raised grown,
    [/\ filtered_expr d gender_ favc_ calc_ faf_ = Ok view,
        filtered_expr d gender_ favc_ calc_ faf' = Ok raised,
        filtered_expr d gender' favc' calc' faf_ = Ok grown,
        subseq raised view
      & subseq view grown].
Proof.
move=> le_faf eg ef ec; rewrite !filtered_exprE.
do 3!eexists; split; try reflexivity.
- apply: filter_imply => r; rewrite /spec_mask => /and4P [-> -> ->] /=.
  exact: ge_threshold_antitone.
- apply: filter_imply => r; rewrite /spec_mask => /and4P [pg pf pc ->].
  by rewrite (extends_pass eg pg) (extends_pass ef pf) (extends_pass ec pc).
Qed.

(** The scenario table: the slider raised from 1 to 2, and "Female" added
    to Gender = ["Male"] and "no" to CALC = ["Sometimes"], FAVC staying
    empty. *)
Lemma C10_monotone_witness :
  exists view raised grown,
    [/\ filtered_expr (derived scenario_csv)
          [:: "Male"] [::] [:: "Sometimes"] 1 = Ok view,
        filtered_expr (derived scenario_csv)
          [:: "Male"] [::] [:: "Sometimes"] 2 = Ok raised,
        filtered_expr (derived scenario_csv)
          [:: "Male"; "Female"] [::] [:: "Sometimes"; "no"] 1 = Ok grown,
        subseq raised view
      & subseq view grown].
Proof.
by apply: C10_monotone; vm_compute.
Defined.

(* ===================================================================== *)
(* Further properties of the script's lines                               *)
(* ===================================================================== *)

(* --------------------------------------------------------------------- *)
(* The order on cells                                                     *)
(* --------------------------------------------------------------------- *)

Lemma le_trans (y x z : number) : le x y -> le y z -> le x z.
Proof.
case: x => [p|||]; case: y => [q|||]; case: z => [r|||] //=.
move=> /Qle_bool_iff pq /Qle_bool_iff qr; apply/Qle_bool_iff.
exact: Qle_trans pq qr.
Qed.

Lemma le_total_int (x : number) (b : Z) :
  ~~ isna x -> ~~ le x (of_int b) -> le (of_int b) x.
Proof.
case: x => [[n d]|||] //= _; rewrite le_int_frac int_le_frac.
by move=> /negP H; apply/Z.leb_le; move: H; case: Z.leb_spec => //; lia.
Qed.

Lemma le_of_int (b c : Z) : le (of_int b) (of_int c) = Z.leb b c.
Proof.
rewrite /le /of_int /Qle_bool /inject_Z; cbn [Qnum Qden].
by rewrite !Z.mul_1_r.
Qed.

Lemma le_nan (x : number) (b : Z) : isna x -> le x (of_int b) = false.
Proof. by case: x. Qed.

(* --------------------------------------------------------------------- *)
(* pd.cut for any bin edges and labels                                    *)
(* --------------------------------------------------------------------- *)

Lemma onth_some (T : Type) (s : seq T) (i : nat) :
  i < size s -> exists2 v, onth s i = Some v & forall x0, v = nth x0 s i.
Proof.
elim: s i => [|a s IH] [|i] //=; first by exists a.
by rewrite ltnS => /IH [v E Hv]; exists v.
Qed.

Lemma onth_mem (T : eqType) (s : seq T) (i : nat) (v : T) :
  onth s i = Some v -> v \in s.
Proof.
elim: s i => [|a s IH] [|i] //=; first by case=> ->; rewrite mem_head.
by move/IH; rewrite in_cons orbC => ->.
Qed.

(* On increasing edges, a cell that is at most some edge is at most the
   last one. *)
Lemma le_last_edge (x : number) (b0 : Z) (rest : seq Z) :
  path Z.leb b0 rest ->
  has (fun b => le x (of_int b)) (b0 :: rest) ->
  le x (of_int (last b0 rest)).
Proof.
elim: rest b0 => [|b1 rest IH] b0 /=; first by rewrite orbF.
case/andP=> b01 pth; case/orP=> [xb0|]; last exact: IH.
apply: IH => //=; apply/orP; left.
by apply: le_trans xb0 _; rewrite le_of_int.
Qed.

Lemma cut1_defined (bs : seq Z) (ls : seq string) (x : number) :
  sorted Z.leb bs -> size ls = (size bs).-1 ->
  isSome (cut1 bs ls x)
  = lt (of_int (head 0%Z bs)) x && le x (of_int (last 0%Z bs)).
Proof.
case: bs => [|b0 rest].
  by move=> _ _; rewrite /cut1 /lt /= orbT -andbA andNb andbF.
move=> srt szl; rewrite /cut1 /searchsorted_left /lt [head _ _]/= [last _ _]/=.
set p := fun b => le x (of_int b).
have [nax|nax] := boolP (isna x).
  by rewrite /= !(le_nan _ nax) andbF.
rewrite orFb.
case hasp: (has p (b0 :: rest)); last first.
  have -> : find p (b0 :: rest) = size (b0 :: rest).
    by apply/eqP; rewrite eqn_leq find_size leqNgt -has_find hasp.
  rewrite eqxx orTb; symmetry; apply/negbTE/negP => /andP [_ xl].
  move/hasPn: (negbT hasp) => /(_ (last b0 rest)).
  by rewrite mem_last => /(_ isT); rewrite /p xl.
have xl : le x (of_int (last b0 rest)) by apply: le_last_edge.
have lt_sz : find p (b0 :: rest) < size (b0 :: rest) by rewrite -has_find.
rewrite xl andbT (ltn_eqF lt_sz) orFb.
case pb0: (p b0).
  by rewrite /= pb0 /=; move: pb0; rewrite /p => ->; rewrite andbF.
have fE : find p (b0 :: rest) = (find p rest).+1 by rewrite /= pb0.
rewrite fE /= ltnS in lt_sz; rewrite fE [_.-1]/=.
rewrite /p in pb0; rewrite pb0 andbT le_total_int ?pb0 //.
have [|v -> _] // := @onth_some _ ls (find p rest).
by rewrite szl.
Qed.

Lemma cut1_label (bs : seq Z) (ls : seq string) (x : number) :
  label_or_missing ls (cut1 bs ls x).
Proof.
rewrite /cut1; case: ifP => // _.
by case E: (onth _ _) => [l|] //=; apply: onth_mem E.
Qed.

(** X1: whenever pd.cut accepts its bin edges and labels, the column it
    returns is as long as the input, every band in it is one of the
    labels or missing, and a cell gets a band exactly when it lies above
    the first edge and at or below the last one. *)
Theorem cut_accepts (x : seq number) (bs : seq Z) (ls : seq string)
    (column : seq (option string)) (v : number) :
  cut x bs ls = Ok column ->
  [/\ size column = size x,
      all (label_or_missing ls) column,
      column = [seq cut1 bs ls a | a <- x]
    & isSome (cut1 bs ls v)
      = lt (of_int (head 0%Z bs)) v && le v (of_int (last 0%Z bs))].
Proof.
rewrite /cut; case: ifP => // /negbFE srt; case: ifP => // _.
case: ifP => // _; case: ifP => // /negbFE /eqP szl [<-].
split; rewrite ?size_map //; last exact: cut1_defined.
by rewrite all_map; apply/allP => a _ /=; apply: cut1_label.
Qed.

(** The script's edges and labels on three ages. *)
Lemma cut_accepts_witness :
  [/\ size [:: Some "20-25"; Some "<20"; Some "41+"]
      = size [:: of_int 25; of_int 19; of_int 42],
      all (label_or_missing labels) [:: Some "20-25"; Some "<20"; Some "41+"],
      [:: Some "20-25"; Some "<20"; Some "41+"]
      = [seq cut1 bins labels a | a <- [:: of_int 25; of_int 19; of_int 42]]
    & isSome (cut1 bins labels (of_int 100))
      = lt (of_int (head 0%Z bins)) (of_int 100)
        && le (of_int 100) (of_int (last 0%Z bins))].
Proof.
by apply: (@cut_accepts [:: of_int 25; of_int 19; of_int 42] bins labels).
Defined.

Lemma searchsorted_left_mono (bs : seq Z) (x y : number) :
  le x y -> searchsorted_left bs x <= searchsorted_left bs y.
Proof.
by move=> xy; apply: sub_find => b /=; apply: le_trans xy.
Qed.

Lemma onth_index (s : seq string) (i : nat) (v : string) :
  uniq s -> onth s i = Some v -> index v s = i.
Proof.
elim: s i => [|a s IH] [|i] //=; first by move=> _ [->]; rewrite eqxx.
case/andP=> nas us E; rewrite (IH _ us E).
by case: eqP => // av; move: nas; rewrite av (@onth_mem _ s i v E).
Qed.

(** X2: the band is monotone in the cell: when pd.cut accepts the edges
    and labels and gives two cells x <= y the bands l1 and l2, then l1
    does not come after l2 in the list of labels. *)
Theorem cut_monotone (bs : seq Z) (ls : seq string) (x y : number)
    (l1 l2 : string) :
  le x y ->
  cut [:: x; y] bs ls = Ok [:: Some l1; Some l2] ->
  index l1 ls <= index l2 ls.
Proof.
move=> xy; rewrite /cut; case: ifP => // _; case: ifP => // _.
case: ifP => // /negbFE uls; case: ifP => // _ [].
rewrite /cut1; case: ifP => // _ /(onth_index uls) ->.
case: ifP => // _ /(onth_index uls) ->.
by rewrite -!subn1 leq_sub2r // searchsorted_left_mono.
Qed.

(** Ages 19 and 42 under the script's edges: "<20" comes before "41+". *)
Lemma cut_monotone_witness : index "<20" labels <= index "41+" labels.
Proof.
by apply: (@cut_monotone bins labels (of_int 19) (of_int 42)).
Defined.

(* --------------------------------------------------------------------- *)
(* The widgets and the view                                               *)
(* --------------------------------------------------------------------- *)

Lemma slider_bounds (ui : Session) (label : string) (lo hi : Z) :
  (lo <= hi)%Z -> (lo <= slider ui label lo hi <= hi)%Z.
Proof. rewrite /slider; lia. Qed.

(** X3: in every run the slider value lies in 0..3, so the filtered view
    never holds a row whose FAF cell is below 0, NaN or -inf: such rows
    are dropped whatever the widgets say. *)
Theorem view_FAF_floor (csv : seq Respondent) (ui : Session) :
  exists g view f,
    [/\ app csv ui = Ok g,
        filtered g = Some view,
        faf g = Some f,
        (0 <= f <= 3)%Z
      & all (fun r => ge (FAF (fields r)) (of_int 0)) view].
Proof.
exists (final csv ui); do 2!eexists; rewrite app_ok.
split; [by [] | reflexivity | reflexivity | exact: slider_bounds |].
apply/allP => r; rewrite mem_filter => /andP [/and4P [_ _ _ H] _].
have [//|lo _] := @slider_bounds ui "Physical Activity (FAF)" 0 3.
exact: ge_threshold_antitone lo H.
Qed.

(** X4: with nothing picked in the Gender, FAVC and CALC multi-selects
    and the slider at its minimum, the run keeps exactly the rows whose
    FAF cell is at least 0; the view is the whole table if and only if
    every FAF cell of the CSV is at least 0. *)
Theorem default_widgets (csv : seq Respondent) (ui : Session) :
  picked ui "Gender" = [::] ->
  picked ui "High Calorie Food (FAVC)" = [::] ->
  picked ui "Alcohol (CALC)" = [::] ->
  (position ui "Physical Activity (FAF)" <= 0)%Z ->
  exists g d view,
    [/\ app csv ui = Ok g,
        df g = Some d,
        filtered g = Some view,
        view = [seq r <- d | ge (FAF (fields r)) (of_int 0)]
      & (view == d) = all (fun r => ge (FAF r) (of_int 0)) csv].
Proof.
move=> pg pf pc pos; exists (final csv ui), (derived csv); eexists.
rewrite app_ok; split; [by [] | by [] | reflexivity | |].
- rewrite /multiselect pg pf pc /slider.
  have -> : Z.max 0 (Z.min 3 (position ui "Physical Activity (FAF)")) = 0%Z.
    lia.
  by apply: eq_filter => r.
- rewrite /multiselect pg pf pc /slider.
  have -> : Z.max 0 (Z.min 3 (position ui "Physical Activity (FAF)")) = 0%Z.
    lia.
  apply/eqP/allP => [E r rin|H].
    have /all_filterP/allP := E.
    by move/(_ (mkRow r (cut1 bins labels (Age r))) (map_f _ rin)) => /and4P [].
  by apply/all_filterP/allP => _ /mapP [r rin ->] /=; apply: H.
Qed.

(** The scenario table under the untouched widgets: every FAF is at least
    0, so nothing is filtered out. *)
Lemma default_widgets_witness :
  exists g d view,
    [/\ app scenario_csv default_ui = Ok g,
        df g = Some d,
        filtered g = Some view,
        view = [seq r <- d | ge (FAF (fields r)) (of_int 0)]
      & (view == d) = all (fun r => ge (FAF r) (of_int 0)) scenario_csv].
Proof.
by apply: default_widgets.
Defined.

(* --------------------------------------------------------------------- *)
(* The marks of the chart                                                 *)
(* --------------------------------------------------------------------- *)

Section Marks.

Variables (view : DataFrame) (x color : column_name) (ttl : string).

(* Counting the rows value by value counts every row that has a value
   once. *)
Lemma sum_count_by (p : pred Row) (w : seq string) (rows : DataFrame) :
  uniq w ->
  (forall r c, r \in rows -> cell color r = Some c -> c \in w) ->
  \sum_(c <- w) count (fun r => p r && (cell color r == Some c)) rows
  = count (fun r => p r && present color r) rows.
Proof.
move=> uw; elim: rows => [|r s IH] sub /=; first by rewrite big1.
have sub' : forall r' c, r' \in s -> cell color r' = Some c -> c \in w.
  by move=> r' c rin; apply: sub; rewrite in_cons rin orbT.
rewrite big_split /= (IH sub').
congr (_ + _); case: (p r) => /=; last by rewrite big1.
rewrite /present; case rc: (cell color r) => [c0|] /=; last by rewrite big1.
have -> : \sum_(c <- w) (Some c0 == Some c :> option string : nat)
          = \sum_(c <- w | c == c0) 1.
  rewrite [RHS]big_mkcond /=; apply: eq_bigr => c _.
  have -> : (Some c0 == Some c :> option string) = (c == c0).
    by apply/eqP/eqP => [[]|->].
  by case: (c == c0).
by rewrite sum_pick // (sub r c0) // mem_head.
Qed.

Lemma values_sub (r : Row) (c : string) :
  r \in view -> cell color r = Some c ->
  c \in pmap id (unique [seq cell color r | r <- view]).
Proof.
by move=> rin rc; rewrite mem_pmap map_id -rc; apply: cell_in_unique.
Qed.

Lemma values_uniq : uniq (pmap id (unique [seq cell color r | r <- view])).
Proof.
have injS : injective (@Some string) by move=> a b [].
have canS : ocancel (@id (option string)) Some by case.
by rewrite -(map_inj_uniq injS) (pmap_filter canS) filter_uniq // unique_uniq.
Qed.

Lemma single_segment (k : option string) (g : string) :
  segment_height (bar_trace x (k, view)) g
  = count (fun r => cell x r == Some g) view.
Proof. by rewrite /segment_height /= zip_map big_map /= sum1_count. Qed.

(** X5: px.bar succeeds on every frame; every trace of its figure has at
    least one mark, as many heights as categories, and every height is
    1; the figure has no trace exactly when the frame it is drawn from
    has no row. *)
Theorem chart_marks :
  exists fig,
    [/\ px_bar view x color ttl = Ok fig,
        all (fun t => [&& trace_x t != [::],
                          size (trace_x t) == size (trace_y t)
                        & all (pred1 1) (trace_y t)]) (data fig)
      & nilp (data fig) = nilp view].
Proof.
exists (bar_figure view x color ttl); rewrite px_bar_ok; split=> //.
- rewrite /bar_figure; case: ifP => [_|_].
  + rewrite /= all_map; apply/allP => c /=.
    rewrite mem_pmap map_id => /unique_cell [r rin rc].
    rewrite !size_map eqxx all_map /= all_predT !andbT.
    rewrite -size_eq0 size_map size_filter -lt0n -has_count.
    by apply/hasP; exists r => //; rewrite rc.
  + case: ifP => //=; rewrite /nilp !size_map eqxx all_map /= all_predT.
    by rewrite -size_eq0 size_map => ->.
- rewrite /bar_figure; case: ifP => [valued|_]; last by case: ifP.
  have [c cin] := present_value valued; rewrite /= /nilp size_map.
  have -> : (size view == 0) = false by case: (view) valued.
  by case: (pmap _ _) cin.
Qed.

(** X6: px.bar draws the rows that have a value in the color column, or
    every row when no row has one: the marks of all traces together are
    as many as those rows, and over each category the segments of all
    series, stacked, are as high as the number of those rows in that
    category.  A row without a value is not counted in any bar as soon
    as another row has one. *)
Theorem chart_totals (c : string) :
  exists fig,
    [/\ px_bar view x color ttl = Ok fig,
        \sum_(t <- data fig) size (trace_x t) = size (drawn color view)
      & \sum_(t <- data fig) segment_height t c
        = count (fun r => cell x r == Some c) (drawn color view)].
Proof.
exists (bar_figure view x color ttl); rewrite px_bar_ok.
rewrite /bar_figure /drawn; case: ifP => [_|_]; last first.
  case: ifP => [/nilP ->|_]; first by rewrite /= !big_nil.
  by rewrite /= !big_cons !big_nil !addn0 size_map single_segment.
split=> //; rewrite /= big_map.
- under eq_bigr do rewrite /= size_map size_filter.
  rewrite size_filter -(sum_count_by predT values_uniq values_sub).
  by apply: eq_bigr.
- under eq_bigr do rewrite segment_count.
  rewrite count_filter.
  exact: (sum_count_by _ values_uniq values_sub).
Qed.

End Marks.

Lemma categories_from (view : DataFrame) (x color : column_name)
    (ttl : string) (c : string) :
  c \in categories (bar_figure view x color ttl) ->
  exists2 r, r \in view & cell x r = Some c.
Proof.
rewrite /bar_figure; case: ifP => [valued|_].
- have := categories_mem x ttl valued c; rewrite /bar_figure valued => ->.
  rewrite mem_pmap => /mapP [r]; rewrite mem_filter => /andP [_ rin] E.
  by exists r.
- case: ifP => _; rewrite /categories mem_unique //= cats0 mem_pmap map_id.
  by case/mapP=> r rin E; exists r.
Qed.

Lemma names_from (view : DataFrame) (x color : column_name)
    (ttl : string) (s : string) :
  s \in [seq trace_name t | t <- data (bar_figure view x color ttl)] ->
  exists2 r, r \in view & py_str (cell color r) = s.
Proof.
rewrite /bar_figure; case: ifP => [valued|novalue].
- have := trace_names x ttl valued; rewrite /bar_figure valued => ->.
  rewrite mem_pmap map_id => /unique_cell [r rin rc].
  by exists r => //; rewrite rc.
- case: ifP => // nonempty; rewrite /= inE => /eqP ->.
  case vE: view nonempty => [|r v] // _; exists r; first exact: mem_head.
  move/hasPn: (negbT novalue) => /(_ r); rewrite vE mem_head => /(_ isT).
  by rewrite /present negbK => /eqP ->.
Qed.

(** X7: in every run the categories of the chart are genders of the table
    and, when the Gender selection is not empty, selected genders; the
    series of the chart are obesity classes of the table (the series
    "nan" standing for a missing class). *)
Theorem chart_within_selection (csv : seq Respondent) (ui : Session) :
  exists g d gender_ fig,
    [/\ app csv ui = Ok g,
        [/\ df g = Some d, gender g = Some gender_ & fig1 g = Some fig],
        all (fun c => (c \in col Gender d)
                      && ((gender_ == [::]) || (c \in gender_)))
            (categories fig)
      & all (fun s => s \in [seq py_str v | v <- col NObeyesdad d])
            [seq trace_name t | t <- data fig]].
Proof.
exists (final csv ui), (derived csv); do 2!eexists; rewrite app_ok.
split; [by [] | by split; reflexivity | |].
- apply/allP => c /categories_from [r].
  rewrite mem_filter => /andP [/and4P [sel _ _ _] rin] [<-].
  by rewrite orbC sel andbT; apply/mapP; exists r.
- apply/allP => s /names_from [r].
  rewrite mem_filter => /andP [_ rin] <-.
  by rewrite /col -map_comp; apply/mapP; exists r.
Qed.

(* --------------------------------------------------------------------- *)
(* Filtering a view again                                                 *)
(* --------------------------------------------------------------------- *)

(** X8: selecting from a filtered view with a second set of control
    values keeps the rows of the table that satisfy both masks, in either
    order of the two selections; with the same control values it gives
    the view back. *)
Theorem filter_compose
    (d : DataFrame) (gender1 favc1 calc1 gender2 favc2 calc2 : seq string)
    (faf1 faf2 : Z) :
  exists v1 v2 w1,
    [/\ filtered_expr d gender1 favc1 calc1 faf1 = Ok v1,
        filtered_expr v1 gender2 favc2 calc2 faf2 = Ok v2,
        v2 = [seq r <- d | spec_mask gender1 favc1 calc1 faf1 r
                           && spec_mask gender2 favc2 calc2 faf2 r],
        filtered_expr d gender2 favc2 calc2 faf2 = Ok w1
        /\ filtered_expr w1 gender1 favc1 calc1 faf1 = Ok v2
      & filtered_expr v1 gender1 favc1 calc1 faf1 = Ok v1].
Proof.
do 3!eexists; rewrite !filtered_exprE.
split; [reflexivity | reflexivity | | split; first reflexivity |].
- by rewrite -filter_predI; apply: eq_filter => r /=; rewrite andbC.
- by rewrite -!filter_predI; congr Ok; apply: eq_filter => r /=; rewrite andbC.
- by rewrite filter_id.
Qed.

(* --------------------------------------------------------------------- *)
(* The Age column                                                         *)
(* --------------------------------------------------------------------- *)

Lemma cell_blank (c : column_name) (r : Row) : cell c (blank_Age r) = cell c r.
Proof. by case: c. Qed.

Lemma col_blank (T : Type) (F : Respondent -> T) (d : DataFrame) :
  (forall a r, F (with_Age a r) = F r) ->
  col F [seq blank_Age r | r <- d] = col F d.
Proof. by move=> FE; rewrite /col -map_comp; apply: eq_map => r /=. Qed.

Lemma filter_blank (a : pred Row) (d : DataFrame) :
  (forall r, a (blank_Age r) = a r) ->
  [seq blank_Age r | r <- d & a r] = [seq r <- [seq blank_Age r | r <- d] | a r].
Proof.
by move=> aE; rewrite filter_map; congr map; apply: eq_filter => r /=; rewrite aE.
Qed.

Lemma bar_trace_blank (x : column_name) (k : option string) (v : DataFrame) :
  bar_trace x (k, [seq blank_Age r | r <- v]) = bar_trace x (k, v).
Proof.
by rewrite /bar_trace /= -!map_comp; congr mkTrace.
Qed.

Lemma bar_figure_blank (v : DataFrame) (x color : column_name) (ttl : string) :
  bar_figure [seq blank_Age r | r <- v] x color ttl = bar_figure v x color ttl.
Proof.
have cE : [seq cell color r | r <- [seq blank_Age r | r <- v]]
          = [seq cell color r | r <- v].
  by rewrite -map_comp; apply: eq_map => r /=; rewrite cell_blank.
have hE : has (present color) [seq blank_Age r | r <- v]
          = has (present color) v.
  by rewrite has_map; apply: eq_has => r; rewrite /present /= cell_blank.
rewrite /bar_figure hE cE /nilp size_map bar_trace_blank.
case: ifP => // _; congr mkFigure; apply: eq_map => c.
rewrite /valued_trace.
have -> : [seq r <- [seq blank_Age r | r <- v] | cell color r == Some c]
          = [seq blank_Age r | r <- v & cell color r == Some c].
  by rewrite filter_blank // => r; rewrite cell_blank.
by rewrite bar_trace_blank.
Qed.

(** X9: the Age column, and the AgeBand column made from it, reach
    neither the widgets, nor the mask, nor the chart: two runs on tables
    that differ only in their Age cells end with the same widget values,
    the same rows selected (up to Age and AgeBand) and the same chart. *)
Theorem Age_ignored (csv1 csv2 : seq Respondent) (ui : Session) :
  [seq with_Age NaN r | r <- csv1] = [seq with_Age NaN r | r <- csv2] ->
  exists g1 g2 v1 v2,
    [/\ app csv1 ui = Ok g1 /\ app csv2 ui = Ok g2,
        filtered g1 = Some v1 /\ filtered g2 = Some v2,
        [seq blank_Age r | r <- v1] = [seq blank_Age r | r <- v2],
        [/\ gender g1 = gender g2, favc g1 = favc g2, calc g1 = calc g2,
            faf g1 = faf g2 & fh g1 = fh g2]
      & fig1 g1 = fig1 g2 /\ page g1 = page g2].
Proof.
move=> same.
have H : [seq blank_Age r | r <- derived csv1]
         = [seq blank_Age r | r <- derived csv2].
  by rewrite /derived -!map_comp -[LHS]/(map (fun r => mkRow (with_Age NaN r) None) csv1)
             -[RHS]/(map (fun r => mkRow (with_Age NaN r) None) csv2)
             (map_comp (fun r => mkRow r None)) same -map_comp.
have colE (T : Type) (F : Respondent -> T) :
    (forall a r, F (with_Age a r) = F r) ->
    col F (derived csv1) = col F (derived csv2).
  by move=> FE; rewrite -(col_blank _ FE) H col_blank.
exists (final csv1 ui), (final csv2 ui); do 2!eexists; rewrite !app_ok.
have [cG cF cC cH cA] :
    [/\ col Gender (derived csv1) = col Gender (derived csv2),
        col FAVC (derived csv1) = col FAVC (derived csv2),
        col CALC (derived csv1) = col CALC (derived csv2),
        col family_history_with_overweight (derived csv1)
        = col family_history_with_overweight (derived csv2)
      & col FAF (derived csv1) = col FAF (derived csv2)].
  by split; apply: colE.
have vE : [seq blank_Age r | r <- oapp id [::] (filtered (final csv1 ui))]
          = [seq blank_Age r | r <- oapp id [::] (filtered (final csv2 ui))].
  by rewrite /final /= !filter_blank // H cG cF cC.
split; [by [] | by split; reflexivity | exact: vE | |].
- by rewrite /final /= cG cF cC cH.
- have figE :
      bar_figure (oapp id [::] (filtered (final csv1 ui))) cGender
                 cNObeyesdad "Obesity by Gender"
      = bar_figure (oapp id [::] (filtered (final csv2 ui))) cGender
                   cNObeyesdad "Obesity by Gender".
    by rewrite -bar_figure_blank vE bar_figure_blank.
  by split; [exact: (congr1 Some figE) | exact: (congr1 (fun f => [:: f]) figE)].
Qed.

(** The scenario table, and the same respondents with other ages. *)
Lemma Age_ignored_witness :
  exists g1 g2 v1 v2,
    [/\ app scenario_csv scenario_ui = Ok g1
        /\ app [seq with_Age (of_int 33) r | r <- scenario_csv] scenario_ui
           = Ok g2,
        filtered g1 = Some v1 /\ filtered g2 = Some v2,
        [seq blank_Age r | r <- v1] = [seq blank_Age r | r <- v2],
        [/\ gender g1 = gender g2, favc g1 = favc g2, calc g1 = calc g2,
            faf g1 = faf g2 & fh g1 = fh g2]
      & fig1 g1 = fig1 g2 /\ page g1 = page g2].
Proof.
by apply: Age_ignored.
Defined.

(* --------------------------------------------------------------------- *)
(* The & of the mask                                                      *)
(* --------------------------------------------------------------------- *)

Lemma and_aligned_C (s t : seq bool) : and_aligned s t = and_aligned t s.
Proof. by elim: s t => [|a s IH] [|b t] //=; rewrite andbC IH. Qed.

Lemma and_aligned_false (n : nat) (t : seq bool) :
  and_aligned (nseq n false) t = nseq (maxn n (size t)) false.
Proof.
elim: n t => [|n IH] [|b t] //=; rewrite ?max0n ?size_nseq ?maxn0 //.
by rewrite IH maxnSS.
Qed.

Lemma and_aligned_A (a b c : seq bool) :
  and_aligned (and_aligned a b) c = and_aligned a (and_aligned b c).
Proof.
elim: a b c => [|x a IH] [|y b] [|z c] //=;
  rewrite ?size_nseq ?and_aligned_size ?and_aligned_false ?max0n ?maxn0
          ?maxnSS //=.
- by rewrite andbF and_aligned_C and_aligned_false maxnC.
- by rewrite andbF and_aligned_C and_aligned_false maxnC.
- by rewrite andbA IH.
Qed.

Lemma and_aligned_scale (p : bool) (s t : seq bool) :
  and_aligned [seq p && v | v <- s] t = [seq p && v | v <- and_aligned s t].
Proof.
case: p => /=; first by rewrite !map_id.
have all_false (u : seq bool) : [seq false | _ <- u] = nseq (size u) false.
  by elim: u => //= _ u ->.
by rewrite !all_false and_aligned_false and_aligned_size.
Qed.

Lemma map_andbC (p : bool) (s : seq bool) :
  [seq v && p | v <- s] = [seq p && v | v <- s].
Proof. by apply: eq_map => v; rewrite andbC. Qed.

Lemma and_C (a b : operand) : and_ a b = and_ b a.
Proof.
case: a b => [p|s] [q|t] /=; rewrite ?map_andbC //.
- by rewrite andbC.
- by rewrite and_aligned_C.
Qed.

(** X10: the & of the mask is commutative and associative, and the True
    that an empty selection contributes is neutral on either side: the
    mask does not depend on the order in which its conditions are
    written or grouped. *)
Theorem and_laws (a b c : operand) :
  [/\ and_ a b = and_ b a,
      and_ (and_ a b) c = and_ a (and_ b c),
      and_ (PyBool true) a = a
    & and_ a (PyBool true) = a].
Proof.
split; first exact: and_C.
- case: a b c => [p|s] [q|t] [r|u] /=; rewrite ?map_andbC -?map_comp;
    try by [rewrite andbA
           | congr Series; apply: eq_map => v /=;
             repeat match goal with x : bool |- _ => case: x end].
  + by rewrite and_aligned_scale.
  + by rewrite and_aligned_scale (and_aligned_C s [seq _ | v <- u])
               and_aligned_scale (and_aligned_C u s).
  + by rewrite (and_aligned_C s [seq _ | v <- t]) and_aligned_scale
               (and_aligned_C t s).
  + by rewrite and_aligned_A.
- by case: a => [p|s] //=; rewrite map_id.
- by case: a => [p|s] /=; rewrite ?andbT // map_andbC /= map_id.
Qed.

(* --------------------------------------------------------------------- *)
(* The options and the selections of the multi-selects                    *)
(* --------------------------------------------------------------------- *)

(** X11: the options Series.unique() hands to a multi-select list every
    value of the column once, in order of first appearance: the first
    cell comes first, followed by the distinct other values of the rest
    of the column; no option is repeated, and a value is an option
    exactly when it occurs in the column. *)
Theorem unique_options (v : string) (column : seq string) :
  [/\ unique (v :: column) = v :: [seq w <- unique column | w != v],
      unique [::] = [::] :> seq string,
      uniq (unique column)
    & unique column =i column].
Proof.
split; [| by [] | exact: unique_uniq | exact: mem_unique].
rewrite /unique rev_cons -cats1 undup_cat /= rev_cat /= filter_rev.
by congr (_ :: rev _); apply: eq_filter => w; rewrite inE.
Qed.

(** X12: in every run each value a multi-select returns occurs in its
    column of the table: Gender, FAVC, CALC and family history selections
    are drawn from the data. *)
Theorem selections_from_table (csv : seq Respondent) (ui : Session) :
  exists g d,
    [/\ app csv ui = Ok g,
        df g = Some d,
        oapp (all (fun v => v \in col Gender d)) false (gender g)
        /\ oapp (all (fun v => v \in col FAVC d)) false (favc g)
      & oapp (all (fun v => v \in col CALC d)) false (calc g)
        /\ oapp (all (fun v => v \in col family_history_with_overweight d))
                false (fh g)].
Proof.
exists (final csv ui), (derived csv); rewrite app_ok.
have sel label (column : seq string) :
    all (fun v => v \in column) (multiselect ui label (unique column)).
  by apply/allP => v; rewrite mem_filter mem_unique => /andP [].
by split=> //; split; apply: sel.
Qed.
